(** * A shallow embedding of the IMPALA agent of lagom
    (legacy/impala/.../agent.py) and of the V-trace estimator it calls.

    V-trace and the loss are modelled over real numbers ([R]), with an
    explicit [NonFinite] value for the NaN of an empty mean; the advantage
    standardisation and the value loss are also modelled in IEEE-754
    arithmetic (module [IEEE]), over any monotone rounding to float32 and
    float64.  The timestep counter is a torch [int64] buffer and is
    modelled as a [Z] with its wrap-around. *)

From Stdlib Require Import Reals Lra String List ZArith Bool Lia.
Import ListNotations.
Open Scope R_scope.

(* ================================================================= *)
(** ** The V-trace estimator ([lagom.metric.vtrace]) *)

Module VTrace.

(** One timestep of a trajectory, as V-trace reads it. *)
Record Step := mkStep {
  mu_logp : R;     (* behavior-policy log-probability *)
  pi_logp : R;     (* target-policy log-probability *)
  rew : R;         (* reward r[t] *)
  val : R;         (* value estimate V[t] *)
  done : bool      (* termination flag *)
}.

(** Zip the five per-step sequences; a length mismatch is an error
    (the spec requires failing fast rather than truncating). *)
Fixpoint mk_steps (mu pi rs Vs : list R) (ds : list bool)
  : option (list Step) :=
  match mu, pi, rs, Vs, ds with
  | [], [], [], [], [] => Some []
  | m :: mu', p :: pi', r :: rs', v :: Vs', d :: ds' =>
      match mk_steps mu' pi' rs' Vs' ds' with
      | Some st => Some (mkStep m p r v d :: st)
      | None => None
      end
  | _, _, _, _, _ => None
  end.

Section Estimator.
Variables (gamma clip_rho clip_pg_rho : R).

(** Importance ratio and its two clipped weights (steps 1-3). *)
Definition ratio (s : Step) : R := exp (pi_logp s - mu_logp s).
Definition rho (s : Step) : R := Rmin (ratio s) clip_rho.
Definition c (s : Step) : R := Rmin (ratio s) clip_pg_rho.

Definition not_done (s : Step) : R := if done s then 0 else 1.

(** Modelled from the spec: [lagom.metric.vtrace] is not among the
    source files; this follows section 4.1 of the spec.  The backward
    recursion returns the value targets and the advantages of
    [steps], given the bootstrap value [last_V]:
    - [V_next[t] = V[t+1]], and [V_last] at the last step;
    - [delta[t] = rho[t] * (r[t] + gamma * V_next[t] * (1 - done[t]) - V[t])];
    - [vtarget[t] = V[t] + delta[t]
                    + gamma * c[t] * (1 - done[t]) * (vtarget[t+1] - V_next[t])],
      with [vtarget[T] = V_last];
    - [advantage[t] = c[t] * (r[t] + gamma * (1 - done[t]) * vtarget[t+1] - V[t])]. *)
Fixpoint vtrace_go (last_V : R) (steps : list Step) : list R * list R :=
  match steps with
  | [] => ([], [])
  | s :: rest =>
      let '(vs, As) := vtrace_go last_V rest in
      let V_next := hd last_V (map val rest) in
      let vt_next := hd last_V vs in
      let delta := rho s * (rew s + gamma * V_next * not_done s - val s) in
      let vt := val s + delta + gamma * c s * not_done s * (vt_next - V_next) in
      let A := c s * (rew s + gamma * not_done s * vt_next - val s) in
      (vt :: vs, A :: As)
  end.
End Estimator.

(** Modelled from the spec: the entry point
    [vtrace(behavior_logprobs, target_logprobs, gamma, Rs, Vs, last_V,
    reach_terminal, clip_rho, clip_pg_rho)], returning [(vtarget, advantage)]
    or failing on malformed shapes. *)
Definition vtrace (behavior_logprobs target_logprobs : list R) (gamma : R)
    (Rs Vs : list R) (last_V : R) (reach_terminal : list bool)
    (clip_rho clip_pg_rho : R) : option (list R * list R) :=
  match mk_steps behavior_logprobs target_logprobs Rs Vs reach_terminal with
  | Some steps => Some (vtrace_go gamma clip_rho clip_pg_rho last_V steps)
  | None => None
  end.

(** The value targets alone ([[]] on malformed input). *)
Definition vtargets mu pi gamma Rs Vs last_V ds crho cpg : list R :=
  match vtrace mu pi gamma Rs Vs last_V ds crho cpg with
  | Some (vs, _) => vs
  | None => []
  end.

End VTrace.

(** The standard n-step bootstrapped return, written from the words of the
    spec (section 8): [G[t] = r[t] + gamma * (1 - done[t]) * G[t+1]] with
    [G[T] = V_last].  It is compared with [VTrace.vtrace] below. *)
Fixpoint nstep_return (gamma last_V : R) (rs : list R) (ds : list bool)
  : list R :=
  match rs, ds with
  | r :: rs', d :: ds' =>
      let G := nstep_return gamma last_V rs' ds' in
      (r + gamma * (if d then 0 else 1) * hd last_V G) :: G
  | _, _ => []
  end.

(** Replace every entry after index [t] by zero. *)
Definition zero_after (t : nat) (l : list R) : list R :=
  firstn (S t) l ++ repeat 0 (length l - S t).

(* ================================================================= *)
(** ** Per-trajectory V-trace inside [Agent.learn] (lines 91-110) *)

Module Batch.
Import VTrace.

(** The fields of a [Trajectory] that [learn] hands to [vtrace]. *)
Record Traj := mkTraj {
  behavior_logprob : list R;   (* torch.cat(traj.get_all_info('action_logprob')) *)
  rewards : list R;            (* traj.rewards *)
  reach_terminal : list bool   (* traj.reach_terminal *)
}.

(** [len(traj)]: the number of actions taken. *)
Definition traj_len (tr : Traj) : nat := length (rewards tr).

(** [tensor.split(Ts)]: the sizes must add up to the length. *)
Fixpoint split_sizes (Ts : list nat) (xs : list R) : option (list (list R)) :=
  match Ts with
  | [] => match xs with [] => Some [] | _ => None end
  | T :: Ts' =>
      if Nat.leb T (length xs) then
        match split_sizes Ts' (skipn T xs) with
        | Some xss => Some (firstn T xs :: xss)
        | None => None
        end
      else None
  end.

(** The [for ... in zip(...)] loop: [zip] stops at the shortest input. *)
Fixpoint learn_vtrace (gamma clip_rho clip_pg_rho : R) (D : list Traj)
    (logprobs Vs : list (list R)) (last_Vs : list R)
  : option (list R * list R) :=
  match D, logprobs, Vs, last_Vs with
  | tr :: D', lp :: lps', V :: Vs', lv :: lvs' =>
      match vtrace (behavior_logprob tr) lp gamma (rewards tr) V lv
              (reach_terminal tr) clip_rho clip_pg_rho,
            learn_vtrace gamma clip_rho clip_pg_rho D' lps' Vs' lvs' with
      | Some (v, A), Some (vs, As) => Some (v ++ vs, A ++ As)
      | _, _ => None
      end
  | _, _, _, _ => Some ([], [])
  end.

(** Lines 102-110 on one-dimensional [logprobs] and [Vs] (what the
    [.squeeze()] of lines 94 and 96 gives for a batch of other than one
    timestep, see [Squeeze]): split them by the trajectory lengths, run
    V-trace per trajectory, concatenate. *)
Definition split_vtrace (gamma clip_rho clip_pg_rho : R) (D : list Traj)
    (logprobs Vs last_Vs : list R) : option (list R * list R) :=
  let Ts := map traj_len D in
  match split_sizes Ts logprobs, split_sizes Ts Vs with
  | Some lps, Some Vss => learn_vtrace gamma clip_rho clip_pg_rho D lps Vss last_Vs
  | _, _ => None
  end.

End Batch.

(* ================================================================= *)
(** ** Advantage standardisation and the loss (lines 111-122) *)

Module Loss.

(** A float: a finite real, or a non-finite value (NaN or infinity). *)
Inductive float := Fin (x : R) | NonFinite.

Definition Rsum (xs : list R) : R := fold_right Rplus 0 xs.

(** Elementwise binary tensor operation on equal-shaped 1-d tensors. *)
Fixpoint zipWith (f : R -> R -> R) (l1 l2 : list R) : list R :=
  match l1, l2 with
  | a :: l1', b :: l2' => f a b :: zipWith f l1' l2'
  | _, _ => []
  end.

(** [Tensor.mean()]: NaN on an empty tensor. *)
Definition mean (xs : list R) : float :=
  match xs with
  | [] => NonFinite
  | _ => Fin (Rsum xs / INR (length xs))
  end.

(** Lines 117-122. *)
Definition policy_loss (logprobs As : list R) : list R :=
  zipWith (fun lp a => - lp * a) logprobs As.
Definition entropy_loss (entropies : list R) : list R := map Ropp entropies.
(** [F.mse_loss(Vs, vs, reduction='none')]. *)
Definition value_loss (Vs vs : list R) : list R :=
  zipWith (fun V v => (V - v) ^ 2) Vs vs.

Definition loss (value_coef entropy_coef : R)
    (logprobs entropies Vs vs As : list R) : float :=
  mean (zipWith Rplus
          (zipWith Rplus (policy_loss logprobs As)
                         (map (Rmult value_coef) (value_loss Vs vs)))
          (map (Rmult entropy_coef) (entropy_loss entropies))).

End Loss.

(* ================================================================= *)
(** ** IEEE-754 arithmetic: the standardisation of line 112 and the value
    loss of line 119 in float32 *)

Module IEEE.

(** A binary floating-point value.  Zeros are unsigned: every zero that is
    divided by below is [+0]. *)
Inductive fl := Num (x : R) | PInf | NInf | NaN.

(** [x * inf]: an infinity with the sign of [x], NaN for [x = 0]. *)
Definition inf_of_sign (x : R) : fl :=
  match total_order_T x 0 with
  | inleft (left _) => NInf
  | inleft (right _) => NaN
  | inright _ => PInf
  end.

(** The order of non-NaN values ([NaN] is unordered). *)
Definition fle (a b : fl) : Prop :=
  match a, b with
  | NaN, _ | _, NaN => False
  | NInf, _ | _, PInf => True
  | Num x, Num y => x <= y
  | _, _ => False
  end.

Section Ops.
(** The rounding of an exact real result to the format (to nearest, an
    overflow giving an infinity). *)
Variable rnd : R -> fl.

Definition fl_add (a b : fl) : fl :=
  match a, b with
  | NaN, _ | _, NaN => NaN
  | PInf, NInf | NInf, PInf => NaN
  | PInf, _ | _, PInf => PInf
  | NInf, _ | _, NInf => NInf
  | Num x, Num y => rnd (x + y)
  end.

Definition fl_neg (a : fl) : fl :=
  match a with Num x => Num (- x) | PInf => NInf | NInf => PInf | NaN => NaN end.

Definition fl_sub (a b : fl) : fl := fl_add a (fl_neg b).

Definition fl_mul (a b : fl) : fl :=
  match a, b with
  | NaN, _ | _, NaN => NaN
  | Num x, Num y => rnd (x * y)
  | Num x, PInf | PInf, Num x => inf_of_sign x
  | Num x, NInf | NInf, Num x => inf_of_sign (- x)
  | PInf, PInf | NInf, NInf => PInf
  | PInf, NInf | NInf, PInf => NInf
  end.

Definition fl_div (a b : fl) : fl :=
  match a, b with
  | NaN, _ | _, NaN => NaN
  | Num x, Num y => if Req_EM_T y 0 then inf_of_sign x else rnd (x / y)
  | Num _, PInf | Num _, NInf => Num 0
  | PInf, Num y => if Rlt_dec y 0 then NInf else PInf
  | NInf, Num y => if Rlt_dec y 0 then PInf else NInf
  | PInf, PInf | PInf, NInf | NInf, PInf | NInf, NInf => NaN
  end.

Definition fl_sqrt (a : fl) : fl :=
  match a with
  | Num x => if Rlt_dec x 0 then NaN else rnd (sqrt x)
  | PInf => PInf
  | NInf | NaN => NaN
  end.
End Ops.

(** What the proofs use of a rounding to a binary format: it is monotone,
    it keeps a representable value, and it keeps zero. *)
Definition rounding (rnd : R -> fl) : Prop :=
  (forall x y, x <= y -> fle (rnd x) (rnd y)) /\
  (forall x y, rnd x = Num y -> rnd y = Num y) /\
  rnd 0 = Num 0.

(** A saturating rounding: exact within [[-M, M]], an infinity outside
    (used to exercise overflow). *)
Definition rnd_sat (M : R) (x : R) : fl :=
  if Rle_dec x M then if Rle_dec (- M) x then Num x else NInf else PInf.

(** NaN, [+inf] or a non-negative number. *)
Definition nonneg (a : fl) : Prop :=
  a = NaN \/ a = PInf \/ exists x, a = Num x /\ 0 <= x.

(** A finite value. *)
Definition is_num (a : fl) : bool := match a with Num _ => true | _ => false end.

Section Float32.
(** Rounding to float32 and to float64. *)
Variables rnd32 rnd64 : R -> fl.

(** [static_cast<float>] of a double. *)
Definition to_f32 (a : fl) : fl := match a with Num x => rnd32 x | _ => a end.

(** [As.mean()]: the float32 sum of the elements divided by their number
    (torch sums in blocks; the model sums left to right). *)
Definition mean32 (As : list fl) : fl :=
  fl_div rnd32 (fold_left (fl_add rnd32) As (Num 0)) (rnd32 (INR (length As))).

(** [As.std()], torch's unbiased [std_var_all_cpu]: NaN for an empty
    tensor; otherwise the float32 mean is read as a double, the squared
    deviations are summed in double and divided by [max(0, N - 1)], and the
    square root is converted to float32. *)
Definition std32 (As : list fl) : fl :=
  match As with
  | [] => NaN
  | _ =>
      let m := mean32 As in
      let sum_dx2 :=
        fold_left (fun acc x => let dx := fl_sub rnd64 x m in
                                fl_add rnd64 acc (fl_mul rnd64 dx dx)) As (Num 0) in
      to_f32 (fl_sqrt rnd64 (fl_div rnd64 sum_dx2 (rnd64 (INR (length As - 1)))))
  end.

(** The literal [1e-8]: a double, converted to float32 when added to the
    float32 tensor. *)
Definition eps32 : fl := to_f32 (rnd64 (/ 100000000)).

(** The divisor [As.std() + 1e-8] of line 112. *)
Definition std_divisor32 (As : list fl) : fl := fl_add rnd32 (std32 As) eps32.

(** Line 112: [As = (As - As.mean())/(As.std() + 1e-8)]. *)
Definition standardize32 (As : list fl) : list fl :=
  map (fun a => fl_div rnd32 (fl_sub rnd32 a (mean32 As)) (std_divisor32 As)) As.

(** Line 119: [F.mse_loss(Vs, vs, reduction='none')], the elementwise
    [(V - v) ** 2] in float32 ([pow] with exponent 2 is [d * d]). *)
Fixpoint value_loss32 (Vs vs : list fl) : list fl :=
  match Vs, vs with
  | V :: Vs', v :: vs' =>
      (let d := fl_sub rnd32 V v in fl_mul rnd32 d d) :: value_loss32 Vs' vs'
  | _, _ => []
  end.
End Float32.

End IEEE.

(* ================================================================= *)
(** ** The timestep counter and the learning-rate schedule *)

Module Counter.

Definition wrap64 (z : Z) : Z := ((z + 2 ^ 63) mod 2 ^ 64 - 2 ^ 63)%Z.


(** [self.total_timestep += s] with a non-negative Python int [s]: torch
    accepts an [s] below [2^64] and takes it modulo [2^64], and the in-place
    add wraps around; from [2^64] on the conversion raises. *)
Definition iadd64 (buf s : Z) : option Z :=
  if (s <? 2 ^ 64)%Z then Some (wrap64 (buf + s)) else None.

Record AgentState := mkAgentState {
  total_timestep : Z;   (* the registered buffer *)
  lr : R                (* the optimizer's learning rate *)
}.


(** What [learn] does with the optimizer and the scheduler, in order. *)
Inductive Event :=
| OptimizerStep (lr_used : R)       (* self.optimizer.step() *)
| SchedulerStep (epoch : Z).        (* self.lr_scheduler.step(epoch) *)

Definition batch_timesteps (Ts : list N) : Z := Z.of_N (fold_right N.add 0%N Ts).

(** [learn] gets past line 102: every trajectory has a step ([torch.cat] of
    the empty list of [action_logprob] infos raises, line 92), the batch is
    not empty ([np.concatenate] of an empty list raises, line 93), and it
    holds other than one timestep in total (one timestep is squeezed to a
    0-d tensor on lines 94 and 96, whose split raises on line 102). *)
Definition batch_ok (Ts : list N) : bool :=
  negb (existsb (N.eqb 0) Ts) &&
  match Ts with [] => false | _ => true end &&
  negb (N.eqb (fold_right N.add 0%N Ts) 1).

Section Learn.
(** The learning rate [linear_lr_scheduler] sets for a given epoch. *)
Variable sched : Z -> R.

(** [Agent.learn] for a batch of trajectory lengths [Ts], as the counter
    and the learning rate see it: the call raises before line 127 unless
    [batch_ok Ts]; then (lines 127-131) the optimizer steps with the
    current rate, the scheduler (when enabled) steps with the counter, and
    the counter is increased. *)
Definition learn_step (use_lr_scheduler : bool) (st : AgentState)
    (Ts : list N) : option (AgentState * list Event) :=
  if negb (batch_ok Ts) then None
  else
    let evs0 := [OptimizerStep (lr st)] in
    let '(lr', evs) :=
      if use_lr_scheduler
      then (sched (total_timestep st), evs0 ++ [SchedulerStep (total_timestep st)])
      else (lr st, evs0) in
    match iadd64 (total_timestep st) (batch_timesteps Ts) with
    | Some t => Some (mkAgentState t lr', evs)
    | None => None
    end.



End Learn.



End Counter.

(* ================================================================= *)
(** ** [Agent.checkpoint] (lines 145-149) *)

Module Ckpt.

Record WrapperObj := mkWrapper {
  wcls : string;       (* the wrapper's class name *)
  wmean : list R;      (* running mean (VecStandardizeObservation) *)
  wvar : list R        (* running variance *)
}.

(** An environment stack: wrappers around a base environment. *)
Inductive Env :=
| BaseEnv (cls : string)
| Wrap (w : WrapperObj) (inner : Env).

(** Modelled from the spec: [lagom.envs.wrappers.get_wrapper] is not among
    the source files; following the spec ("if an observation-normalization
    wrapper is present in the environment stack") it walks the stack from
    the outside in and returns the first wrapper with the given name. *)
Fixpoint get_wrapper (env : Env) (name : string) : option WrapperObj :=
  match env with
  | BaseEnv _ => None
  | Wrap w inner => if String.eqb (wcls w) name then Some w else get_wrapper inner name
  end.

(** Files written, keyed by the iteration number. *)
Inductive FileWrite :=
| SaveAgent (num_iter : Z)                           (* agent_{num_iter}.pth *)
| SaveObsMoments (num_iter : Z) (mean var : list R).  (* obs_moments_{num_iter}.pth *)

Definition checkpoint (env : Env) (num_iter : Z) : list FileWrite :=
  SaveAgent num_iter ::
  match get_wrapper env "VecStandardizeObservation" with
  | Some obs_env => [SaveObsMoments num_iter (wmean obs_env) (wvar obs_env)]
  | None => []
  end.

(** A wrapper of the given class occurs in the stack. *)
Inductive present (name : string) : Env -> Prop :=
| present_here w inner : wcls w = name -> present name (Wrap w inner)
| present_deeper w inner : present name inner -> present name (Wrap w inner).

End Ckpt.

(* ================================================================= *)
(** ** [Agent.__init__] and [Agent.choose_action] (lines 48-87) *)

Module Init.

(** gym action spaces. *)
Inductive Space :=
| Discrete (n : nat)
| Box (shape : list nat)
| OtherSpace (cls : string).   (* MultiDiscrete, Tuple, Dict, ... *)

Inductive Head :=
| CategoricalHead (n : nat)
| DiagGaussianHead (dim : nat) (std0 : R).

Inductive PyError :=
| AttributeError (attr : string)
| KeyError (key : string).

Record AgentObj := mkAgentObj {
  action_head : option Head;   (* None: the attribute was never set *)
  total_timestep : Z
}.

Definition flatdim (shape : list nat) : nat := fold_right Nat.mul 1%nat shape.

(** The constructor; [std0] is [config['agent.std0']] if the key exists. *)
Definition Agent_init (std0 : option R) (action_space : Space)
  : PyError + AgentObj :=
  let head :=
    match action_space with
    | Discrete n => inr (Some (CategoricalHead n))
    | Box shape =>
        match std0 with
        | Some s => inr (Some (DiagGaussianHead (flatdim shape) s))
        | None => inl (KeyError "agent.std0")
        end
    | OtherSpace _ => inr None
    end in
  match head with
  | inl e => inl e
  | inr h => inr (mkAgentObj h 0)
  end.

(** [choose_action]: the features are computed, then [self.action_head]
    is looked up; the head that builds the action distribution is
    returned. *)
Definition choose_action (a : AgentObj) : PyError + Head :=
  match action_head a with
  | Some h => inr h
  | None => inl (AttributeError "action_head")
  end.

End Init.

(* ================================================================= *)
(** ** The report returned by [Agent.learn] (lines 132-140) *)

Module Report.
Import Loss.

Definition fneg (a : float) : float :=
  match a with Fin x => Fin (- x) | NonFinite => NonFinite end.

(** The scalar entries of [out] that come from the losses, over reals:
    only properties that hold under rounding as well (negation is exact in
    IEEE arithmetic) are stated about them. *)
Record LearnReport := mkLearnReport {
  out_loss : float;             (* loss.item() *)
  out_policy_loss : float;      (* policy_loss.mean().item() *)
  out_entropy_loss : float;     (* entropy_loss.mean().item() *)
  out_policy_entropy : float;   (* -entropy_loss.mean().item() *)
  out_value_loss : float        (* value_loss.mean().item() *)
}.

Definition report (value_coef entropy_coef : R)
    (logprobs entropies Vs vs As : list R) : LearnReport :=
  mkLearnReport
    (loss value_coef entropy_coef logprobs entropies Vs vs As)
    (mean (policy_loss logprobs As))
    (mean (entropy_loss entropies))
    (fneg (mean (entropy_loss entropies)))
    (mean (value_loss Vs vs)).

End Report.

(* ================================================================= *)
(** ** [.squeeze()] on the outputs of [choose_action] (lines 94-103) *)

Module Squeeze.
Import Batch.

(** A squeezed tensor: [.squeeze()] of a [[N]] (or [[N, 1]]) tensor
    removes every dimension of size one, so for [N = 1] it is 0-d. *)
Inductive Tensor := Scalar (x : R) | Vec (xs : list R).

Definition squeeze (xs : list R) : Tensor :=
  match xs with [x] => Scalar x | _ => Vec xs end.

(** [t.split(Ts)]: a 0-d tensor cannot be split (RuntimeError). *)
Definition split_tensor (Ts : list nat) (t : Tensor) : option (list (list R)) :=
  match t with
  | Scalar _ => None
  | Vec xs => split_sizes Ts xs
  end.

(** Lines 94-107 with the squeeze: [logprobs] and [Vs] are the flat
    outputs of [choose_action] before [.squeeze()]. *)
Definition learn_targets_squeezed (gamma clip_rho clip_pg_rho : R)
    (D : list Traj) (logprobs Vs last_Vs : list R) : option (list R * list R) :=
  let Ts := map traj_len D in
  match split_tensor Ts (squeeze logprobs), split_tensor Ts (squeeze Vs) with
  | Some lps, Some Vss => learn_vtrace gamma clip_rho clip_pg_rho D lps Vss last_Vs
  | _, _ => None
  end.

(** Lines 91-110.  Line 92 concatenates the [action_logprob] infos of each
    trajectory: [torch.cat] of the empty list of a trajectory with no step
    raises.  Line 93 concatenates the observations of the batch:
    [np.concatenate] of an empty batch raises.  Then the squeeze, the split
    and V-trace. *)
Definition learn_targets (gamma clip_rho clip_pg_rho : R) (D : list Traj)
    (logprobs Vs last_Vs : list R) : option (list R * list R) :=
  if existsb (fun tr => Nat.eqb (traj_len tr) 0) D then None
  else
    match D with
    | [] => None
    | _ => learn_targets_squeezed gamma clip_rho clip_pg_rho D logprobs Vs last_Vs
    end.

End Squeeze.

(* ================================================================= *)
(** * Properties of the V-trace estimator *)

Import VTrace.

Lemma mk_steps_of_steps (st : list Step) :
  mk_steps (map mu_logp st) (map pi_logp st) (map rew st) (map val st)
           (map done st) = Some st.
Proof.
  induction st as [|[m p r v d] st IH]; simpl; [reflexivity|].
  rewrite IH; reflexivity.
Qed.

Lemma mk_steps_some (mu pi rs Vs : list R) (ds : list bool) (st : list Step) :
  mk_steps mu pi rs Vs ds = Some st ->
  map mu_logp st = mu /\ map pi_logp st = pi /\ map rew st = rs /\
  map val st = Vs /\ map done st = ds.
Proof.
  revert pi rs Vs ds st.
  induction mu as [|m mu IH]; intros [|p pi] [|r rs] [|v Vs] [|d ds] st H;
    simpl in H; try discriminate.
  - injection H as <-; repeat split.
  - destruct (mk_steps mu pi rs Vs ds) as [st'|] eqn:E; [|discriminate].
    injection H as <-.
    destruct (IH _ _ _ _ _ E) as (H1 & H2 & H3 & H4 & H5).
    simpl; rewrite H1, H2, H3, H4, H5; repeat split.
Qed.

Lemma mk_steps_total (mu pi rs Vs : list R) (ds : list bool) :
  length pi = length mu -> length rs = length mu ->
  length Vs = length mu -> length ds = length mu ->
  exists st, mk_steps mu pi rs Vs ds = Some st /\ length st = length mu.
Proof.
  revert pi rs Vs ds.
  induction mu as [|m mu IH]; intros [|p pi] [|r rs] [|v Vs] [|d ds];
    simpl; intros; try discriminate; [exists []; split; reflexivity|].
  destruct (IH pi rs Vs ds) as (st & E & L); try lia.
  rewrite E; exists (mkStep m p r v d :: st); simpl; split; [reflexivity | lia].
Qed.

Lemma vtrace_go_length (gamma crho cpg last_V : R) (st : list Step) :
  length (fst (vtrace_go gamma crho cpg last_V st)) = length st /\
  length (snd (vtrace_go gamma crho cpg last_V st)) = length st.
Proof.
  induction st as [|s st IH]; simpl; [split; reflexivity|].
  destruct (vtrace_go gamma crho cpg last_V st) as [vs As]; simpl in *.
  destruct IH as [-> ->]; split; reflexivity.
Qed.

Lemma ratio_on_policy (s : Step) : pi_logp s = mu_logp s -> ratio s = 1.
Proof. intros H; unfold ratio; rewrite H, Rminus_diag; apply exp_0. Qed.

Lemma weights_on_policy (crho cpg : R) (s : Step) :
  1 <= crho -> 1 <= cpg -> pi_logp s = mu_logp s ->
  ratio s = 1 /\ rho crho s = 1 /\ c cpg s = 1.
Proof.
  intros H1 H2 H; unfold rho, c; rewrite (ratio_on_policy s H).
  split; [reflexivity|]; split; apply Rmin_left; assumption.
Qed.

Lemma vtrace_go_on_policy (gamma crho cpg last_V : R) (st : list Step) :
  1 <= crho -> 1 <= cpg -> Forall (fun s => pi_logp s = mu_logp s) st ->
  fst (vtrace_go gamma crho cpg last_V st)
  = nstep_return gamma last_V (map rew st) (map done st).
Proof.
  intros H1 H2 Hst; induction Hst as [|s st Hs Hst IH]; simpl; [reflexivity|].
  destruct (vtrace_go gamma crho cpg last_V st) as [vs As]; simpl in *.
  rewrite <- IH.
  destruct (weights_on_policy crho cpg s H1 H2 Hs) as (_ & -> & ->).
  unfold not_done; destruct (done s); f_equal; ring.
Qed.

(** ** C1: the concrete scenario of the spec. *)

(** Claim C1: for [T = 2], [gamma = 0.99], zero log-probabilities, rewards
    [[1; 1]], values [[0.5; 0.5]], [V_last = 0], [done = [false; true]] and
    both clip thresholds [1], V-trace returns [vtarget = [1.99; 1.0]]. *)
Theorem vtrace_concrete_scenario :
  exists As,
    vtrace [0; 0] [0; 0] (99 / 100) [1; 1] [1 / 2; 1 / 2] 0 [false; true] 1 1
    = Some ([199 / 100; 1], As).
Proof.
  eexists; unfold vtrace; simpl.
  unfold rho, c, ratio, not_done; simpl.
  rewrite Rminus_diag, exp_0, Rmin_left by lra.
  do 2 f_equal; f_equal; [lra | f_equal; lra].
Qed.

Lemma map_eq_Forall {A : Type} (f g : Step -> A) (st : list Step) :
  map f st = map g st -> Forall (fun s => f s = g s) st.
Proof.
  induction st as [|s st IH]; simpl; intros H; constructor;
    injection H; auto.
Qed.

(** ** C2: with no off-policy correction V-trace is the n-step return. *)

(** Claim C2: when the behavior and target log-probabilities coincide and
    both clip thresholds are at least 1, every importance ratio and both
    clipped weights are 1, and the value targets of V-trace are exactly the
    n-step bootstrapped returns of the trajectory. *)
Theorem vtrace_on_policy_nstep (logp Rs Vs : list R) (ds : list bool)
    (gamma last_V clip_rho clip_pg_rho : R) :
  length Rs = length logp -> length Vs = length logp ->
  length ds = length logp ->
  1 <= clip_rho -> 1 <= clip_pg_rho ->
  (forall s, pi_logp s = mu_logp s ->
     ratio s = 1 /\ rho clip_rho s = 1 /\ c clip_pg_rho s = 1) /\
  exists As,
    vtrace logp logp gamma Rs Vs last_V ds clip_rho clip_pg_rho
    = Some (nstep_return gamma last_V Rs ds, As).
Proof.
  intros HR HV Hd H1 H2; split.
  - intros s Hs; apply weights_on_policy; assumption.
  - destruct (mk_steps_total logp logp Rs Vs ds) as (st & E & _); auto.
    destruct (mk_steps_some _ _ _ _ _ _ E) as (Hm & Hp & Hr & Hv & Hdn).
    unfold vtrace; rewrite E.
    exists (snd (vtrace_go gamma clip_rho clip_pg_rho last_V st)).
    rewrite <- Hr, <- Hdn.
    rewrite <- (vtrace_go_on_policy gamma clip_rho clip_pg_rho last_V st H1 H2).
    + destruct (vtrace_go _ _ _ _ st); reflexivity.
    + apply map_eq_Forall; rewrite Hm, Hp; reflexivity.
Qed.

(** ** C3: nothing after a termination flag reaches the earlier targets. *)

Definition zero_step (s : Step) : Step := mkStep 0 0 0 0 (done s).

Lemma length_zero_after (t : nat) (l : list R) :
  length (zero_after t l) = length l.
Proof.
  unfold zero_after; rewrite length_app, length_firstn, repeat_length; lia.
Qed.

Lemma map_zero_steps (f : Step -> R) (l : list Step) :
  (forall x, f (zero_step x) = 0) ->
  map f (map zero_step l) = repeat 0 (length l).
Proof.
  intros Hf; induction l as [|x l IH]; simpl; [reflexivity|].
  rewrite Hf, IH; reflexivity.
Qed.

Lemma zero_after_split (f : Step -> R) (l1 l2 : list Step) (s : Step) :
  (forall x, f (zero_step x) = 0) ->
  zero_after (length l1) (map f (l1 ++ s :: l2))
  = map f (l1 ++ s :: map zero_step l2).
Proof.
  intros Hf; unfold zero_after.
  rewrite !map_app.
  rewrite firstn_app, firstn_all2 by (rewrite length_map; lia).
  cbn [map].
  replace (S (length l1) - length (map f l1))%nat with 1%nat
    by (rewrite length_map; lia).
  rewrite map_zero_steps by exact Hf.
  rewrite <- app_assoc; simpl; do 3 f_equal.
  rewrite length_app; simpl; rewrite !length_map; lia.
Qed.

Lemma hd_default_irrel (a b : R) (l : list R) : l <> [] -> hd a l = hd b l.
Proof. destruct l; [congruence | reflexivity]. Qed.

Lemma hd_firstn (d : R) (n : nat) (l : list R) : hd d (firstn (S n) l) = hd d l.
Proof. destruct l; reflexivity. Qed.

Lemma nth_firstn_lt (n : nat) (l : list R) (i : nat) (d : R) :
  (i < n)%nat -> nth i (firstn n l) d = nth i l d.
Proof.
  intros H; rewrite nth_firstn; destruct (Nat.ltb_spec i n); [reflexivity | lia].
Qed.

(** The targets up to a terminal step only see the steps up to it. *)
Lemma vtrace_go_prefix (gamma crho cpg lv : R) (s : Step) (l1 l2 : list Step) :
  done s = true ->
  firstn (S (length l1)) (fst (vtrace_go gamma crho cpg lv (l1 ++ s :: l2)))
  = fst (vtrace_go gamma crho cpg 0 (l1 ++ [s])).
Proof.
  intros Hs; induction l1 as [|x l1 IH].
  - simpl; destruct (vtrace_go gamma crho cpg lv l2) as [vs As]; simpl.
    unfold not_done; rewrite Hs; f_equal; ring.
  - change ((x :: l1) ++ s :: l2) with (x :: (l1 ++ s :: l2)).
    change ((x :: l1) ++ [s]) with (x :: (l1 ++ [s])).
    change (length (x :: l1)) with (S (length l1)).
    cbn [vtrace_go].
    destruct (vtrace_go gamma crho cpg lv (l1 ++ s :: l2)) as [vs As] eqn:E1.
    destruct (vtrace_go gamma crho cpg 0 (l1 ++ [s])) as [vs' As'] eqn:E2.
    cbn [fst] in IH |- *.
    assert (Hne : vs <> []).
    { pose proof (proj1 (vtrace_go_length gamma crho cpg lv (l1 ++ s :: l2))) as L.
      rewrite E1, length_app in L; simpl in L.
      intros ->; simpl in L; lia. }
    assert (Hv : hd lv (map val (l1 ++ s :: l2)) = hd 0 (map val (l1 ++ [s]))).
    { destruct l1; reflexivity. }
    assert (Ht : hd lv vs = hd 0 vs').
    { rewrite <- IH, hd_firstn; apply hd_default_irrel; exact Hne. }
    rewrite firstn_cons, IH, Hv, Ht; reflexivity.
Qed.

(** Claim C3: if [done[t]] holds, replacing every reward, value and
    log-probability after index [t], and the bootstrap value, by zero
    leaves the value targets at every index up to [t] unchanged. *)
Theorem vtrace_terminal_boundary (mu pi Rs Vs : list R) (ds : list bool)
    (gamma last_V clip_rho clip_pg_rho : R) (t : nat) :
  nth t ds false = true ->
  forall i, (i <= t)%nat ->
  nth i (vtargets mu pi gamma Rs Vs last_V ds clip_rho clip_pg_rho) 0
  = nth i (vtargets (zero_after t mu) (zero_after t pi) gamma
             (zero_after t Rs) (zero_after t Vs) 0 ds clip_rho clip_pg_rho) 0.
Proof.
  intros Hdt i Hi; unfold vtargets, vtrace.
  destruct (mk_steps mu pi Rs Vs ds) as [st|] eqn:E.
  - destruct (mk_steps_some _ _ _ _ _ _ E) as (Hm & Hp & Hr & Hv & Hd).
    assert (Hlt : (t < length st)%nat).
    { destruct (Nat.lt_ge_cases t (length st)) as [H|H]; [exact H|].
      rewrite nth_overflow in Hdt; [discriminate|].
      rewrite <- Hd, length_map; exact H. }
    destruct (nth_split st (mkStep 0 0 0 0 false) Hlt) as (l1 & l2 & Hst & Hl1).
    set (s := nth t st (mkStep 0 0 0 0 false)) in Hst.
    assert (Hs : done s = true).
    { rewrite <- Hdt, <- Hd, (map_nth done st (mkStep 0 0 0 0 false)); reflexivity. }
    assert (E' : mk_steps (zero_after t mu) (zero_after t pi) (zero_after t Rs)
                   (zero_after t Vs) ds = Some (l1 ++ s :: map zero_step l2)).
    { rewrite <- Hm, <- Hp, <- Hr, <- Hv, <- Hd, Hst, <- Hl1.
      rewrite !zero_after_split by reflexivity.
      replace (map done (l1 ++ s :: l2))
        with (map done (l1 ++ s :: map zero_step l2))
        by (rewrite !map_app; simpl; rewrite map_map; reflexivity).
      apply mk_steps_of_steps. }
    rewrite E'.
    assert (P1 := vtrace_go_prefix gamma clip_rho clip_pg_rho last_V s l1 l2 Hs).
    assert (P2 := vtrace_go_prefix gamma clip_rho clip_pg_rho 0 s l1
                    (map zero_step l2) Hs).
    rewrite Hst.
    destruct (vtrace_go gamma clip_rho clip_pg_rho last_V (l1 ++ s :: l2)) as [vs As].
    destruct (vtrace_go gamma clip_rho clip_pg_rho 0 (l1 ++ s :: map zero_step l2))
      as [vs' As'].
    cbn [fst] in P1, P2 |- *.
    rewrite <- (nth_firstn_lt (S t) vs i 0), <- (nth_firstn_lt (S t) vs' i 0)
      by lia.
    rewrite <- Hl1, P1, P2; reflexivity.
  - destruct (mk_steps (zero_after t mu) (zero_after t pi) (zero_after t Rs)
                (zero_after t Vs) ds) as [st'|] eqn:E'; [|reflexivity].
    exfalso.
    destruct (mk_steps_some _ _ _ _ _ _ E') as (Hm & Hp & Hr & Hv & Hd).
    assert (L := f_equal (@length R) Hm); assert (Lp := f_equal (@length R) Hp).
    assert (Lr := f_equal (@length R) Hr); assert (Lv := f_equal (@length R) Hv).
    assert (Ld := f_equal (@length bool) Hd).
    rewrite length_map, length_zero_after in L, Lp, Lr, Lv; rewrite length_map in Ld.
    destruct (mk_steps_total mu pi Rs Vs ds) as (st & E'' & _); try lia.
    congruence.
Qed.

(** ** C4: one value target and one advantage per timestep. *)

Lemma vtrace_shape_one (mu pi Rs Vs : list R) (ds : list bool)
    (gamma last_V crho cpg : R) :
  length pi = length mu -> length Rs = length mu ->
  length Vs = length mu -> length ds = length mu ->
  exists vs As,
    vtrace mu pi gamma Rs Vs last_V ds crho cpg = Some (vs, As) /\
    length vs = length mu /\ length As = length mu.
Proof.
  intros H1 H2 H3 H4.
  destruct (mk_steps_total mu pi Rs Vs ds H1 H2 H3 H4) as (st & E & L).
  unfold vtrace; rewrite E.
  destruct (vtrace_go_length gamma crho cpg last_V st) as [L1 L2].
  destruct (vtrace_go gamma crho cpg last_V st) as [vs As]; simpl in *.
  exists vs, As; repeat split; lia.
Qed.

Import Batch.

Lemma split_sizes_total (Ts : list nat) (xs : list R) :
  length xs = list_sum Ts ->
  exists xss, split_sizes Ts xs = Some xss /\
              Forall2 (fun x T => length x = T) xss Ts.
Proof.
  revert xs; induction Ts as [|T Ts IH]; intros xs L; simpl in *.
  - destruct xs; [|discriminate]; exists []; split; [reflexivity | constructor].
  - assert (HT : Nat.leb T (length xs) = true) by (apply Nat.leb_le; lia).
    rewrite HT.
    destruct (IH (skipn T xs)) as (xss & E & F); [rewrite length_skipn; lia|].
    rewrite E; exists (firstn T xs :: xss); split; [reflexivity|].
    constructor; [rewrite length_firstn; lia | exact F].
Qed.

Lemma Forall2_map_r {A B C : Type} (P : A -> C -> Prop) (f : B -> C)
    (xs : list A) (ys : list B) :
  Forall2 P xs (map f ys) -> Forall2 (fun x y => P x (f y)) xs ys.
Proof.
  revert xs; induction ys as [|y ys IH]; intros xs H; inversion H; subst;
    constructor; auto.
Qed.

Lemma length_concat_Forall2 (xss : list (list R)) (D : list Traj) :
  Forall2 (fun x tr => length x = traj_len tr) xss D ->
  length (concat xss) = list_sum (map traj_len D).
Proof.
  intros H; induction H; simpl; [reflexivity|].
  rewrite length_app; lia.
Qed.

(** A trajectory whose per-step sequences all have length [len(traj)]. *)
Definition well_formed (tr : Traj) : Prop :=
  length (behavior_logprob tr) = traj_len tr /\
  length (reach_terminal tr) = traj_len tr.

Lemma learn_vtrace_shape (gamma crho cpg : R) (D : list Traj)
    (lps Vss : list (list R)) (lvs : list R) :
  Forall well_formed D ->
  Forall2 (fun x tr => length x = traj_len tr) lps D ->
  Forall2 (fun x tr => length x = traj_len tr) Vss D ->
  length lvs = length D ->
  exists vss Ass,
    learn_vtrace gamma crho cpg D lps Vss lvs = Some (concat vss, concat Ass) /\
    Forall2 (fun x tr => length x = traj_len tr) vss D /\
    Forall2 (fun x tr => length x = traj_len tr) Ass D.
Proof.
  intros HD; revert lps Vss lvs.
  induction HD as [|tr D [Hb Hd] HD IH]; intros lps Vss lvs Hl HV Hlv.
  - exists [], []; inversion Hl; subst; simpl; repeat split; constructor.
  - inversion Hl as [|lp tr' lps' D' Hlp Hl']; subst.
    inversion HV as [|V tr' Vss' D' HVl HV']; subst.
    destruct lvs as [|lv lvs]; [discriminate|]; simpl in Hlv.
    destruct (IH lps' Vss' lvs Hl' HV') as (vss & Ass & E & F1 & F2); [lia|].
    unfold traj_len in *.
    destruct (vtrace_shape_one (behavior_logprob tr) lp (rewards tr) V
                (reach_terminal tr) gamma lv crho cpg) as (v & A & Ev & Lv & LA);
      try lia.
    exists (v :: vss), (A :: Ass); simpl; rewrite Ev, E.
    split; [reflexivity|]; split; constructor; auto; unfold traj_len; lia.
Qed.

Import Squeeze.

Lemma squeeze_vec (xs : list R) : length xs <> 1%nat -> squeeze xs = Vec xs.
Proof. destruct xs as [|x [|y l]]; simpl; intros H; [reflexivity | lia | reflexivity]. Qed.

Lemma existsb_empty_false (D : list Traj) :
  Forall (fun tr => traj_len tr <> 0%nat) D ->
  existsb (fun tr => Nat.eqb (traj_len tr) 0) D = false.
Proof.
  intros H; induction H as [|tr D Htr _ IH]; simpl; [reflexivity|].
  rewrite IH; destruct (Nat.eqb_spec (traj_len tr) 0); [contradiction | reflexivity].
Qed.

(** Claim C4: for a trajectory of length [T] (all five per-step sequences of
    length [T]) V-trace returns exactly [T] value targets and [T]
    advantages.  In [Agent.learn], a batch that is empty, has a trajectory
    with no step, or holds one timestep in total raises before V-trace is
    called; for every other batch the targets are the concatenation, in
    trajectory order, of one block per trajectory whose length is that
    trajectory's length. *)
Theorem vtrace_shape (gamma clip_rho clip_pg_rho : R) :
  (forall (mu pi Rs Vs : list R) (ds : list bool) (last_V : R),
     length pi = length mu -> length Rs = length mu ->
     length Vs = length mu -> length ds = length mu ->
     exists vs As,
       vtrace mu pi gamma Rs Vs last_V ds clip_rho clip_pg_rho = Some (vs, As) /\
       length vs = length mu /\ length As = length mu) /\
  (forall (D : list Traj) (logprobs Vs last_Vs : list R),
     Forall well_formed D ->
     length logprobs = list_sum (map traj_len D) ->
     length Vs = list_sum (map traj_len D) ->
     length last_Vs = length D ->
     ((D = [] \/ Exists (fun tr => traj_len tr = 0%nat) D \/
       list_sum (map traj_len D) = 1%nat) ->
        learn_targets gamma clip_rho clip_pg_rho D logprobs Vs last_Vs = None) /\
     (D <> [] -> Forall (fun tr => traj_len tr <> 0%nat) D ->
      list_sum (map traj_len D) <> 1%nat ->
      exists vss Ass,
        learn_targets gamma clip_rho clip_pg_rho D logprobs Vs last_Vs
        = Some (concat vss, concat Ass) /\
        Forall2 (fun v tr => length v = traj_len tr) vss D /\
        Forall2 (fun A tr => length A = traj_len tr) Ass D /\
        length (concat vss) = list_sum (map traj_len D) /\
        length (concat Ass) = list_sum (map traj_len D))).
Proof.
  split.
  - intros; apply vtrace_shape_one; assumption.
  - intros D logprobs Vs last_Vs HD Hl HV Hlv; split.
    + intros Hbad; unfold learn_targets.
      destruct (existsb (fun tr => Nat.eqb (traj_len tr) 0) D) eqn:Ex; [reflexivity|].
      destruct Hbad as [-> | [Hex | H1]]; [reflexivity | |].
      * exfalso; apply Exists_exists in Hex as (tr & Hin & Htr).
        assert (Ht : existsb (fun tr => Nat.eqb (traj_len tr) 0) D = true)
          by (apply existsb_exists; exists tr; split; [exact Hin | apply Nat.eqb_eq; exact Htr]).
        congruence.
      * assert (Hq : learn_targets_squeezed gamma clip_rho clip_pg_rho D logprobs Vs last_Vs
                     = None).
        { unfold learn_targets_squeezed.
          destruct logprobs as [|x [|y l]]; simpl in Hl; try lia; reflexivity. }
        destruct D; [reflexivity | exact Hq].
    + intros Hne Hnz H1.
      assert (E : learn_targets gamma clip_rho clip_pg_rho D logprobs Vs last_Vs
                  = learn_targets_squeezed gamma clip_rho clip_pg_rho D logprobs Vs last_Vs).
      { unfold learn_targets; rewrite existsb_empty_false by exact Hnz.
        destruct D; [congruence | reflexivity]. }
      rewrite E; unfold learn_targets_squeezed.
      rewrite (squeeze_vec logprobs), (squeeze_vec Vs) by lia; cbn [split_tensor].
      destruct (split_sizes_total _ _ Hl) as (lps & E1 & F1).
      destruct (split_sizes_total _ _ HV) as (Vss & E2 & F2).
      rewrite E1, E2.
      destruct (learn_vtrace_shape gamma clip_rho clip_pg_rho D lps Vss last_Vs HD
                  (Forall2_map_r _ _ _ _ F1) (Forall2_map_r _ _ _ _ F2) Hlv)
        as (vss & Ass & E3 & G1 & G2).
      exists vss, Ass; repeat split; try assumption;
        apply length_concat_Forall2; assumption.
Qed.

(* ================================================================= *)
(** * Properties of the loss and of the advantage standardisation *)

Import Loss.

(** The per-timestep loss term of the claim, read by index. *)
Definition loss_term (value_coef entropy_coef : R)
    (logprobs entropies Vs vs As : list R) (i : nat) : R :=
  - nth i logprobs 0 * nth i As 0
  + value_coef * (nth i Vs 0 - nth i vs 0) ^ 2
  + entropy_coef * (- nth i entropies 0).

Lemma loss_terms_by_index (value_coef entropy_coef : R)
    (logprobs entropies Vs vs As : list R) :
  length entropies = length logprobs -> length Vs = length logprobs ->
  length vs = length logprobs -> length As = length logprobs ->
  zipWith Rplus
    (zipWith Rplus (policy_loss logprobs As)
                   (map (Rmult value_coef) (value_loss Vs vs)))
    (map (Rmult entropy_coef) (entropy_loss entropies))
  = map (loss_term value_coef entropy_coef logprobs entropies Vs vs As)
        (seq 0 (length logprobs)).
Proof.
  revert entropies Vs vs As.
  induction logprobs as [|lp logprobs IH];
    intros [|e entropies] [|V Vs] [|v vs] [|a As]; simpl; intros H1 H2 H3 H4;
    try discriminate; [reflexivity|].
  rewrite <- seq_shift, map_map.
  unfold loss_term at 1; simpl.
  f_equal; try ring.
  apply IH; lia.
Qed.

(** Claim C5: the scalar loss of [Agent.learn] is the mean, over all the
    timesteps of the batch, of
    [-logprob * advantage + value_coef * (V - vtarget)^2
     + entropy_coef * (- entropy)]; over an empty batch torch's mean is
    NaN. *)
Theorem loss_is_mean_of_terms (value_coef entropy_coef : R)
    (logprobs entropies Vs vs As : list R) :
  length entropies = length logprobs -> length Vs = length logprobs ->
  length vs = length logprobs -> length As = length logprobs ->
  loss value_coef entropy_coef logprobs entropies Vs vs As
  = match length logprobs with
    | O => NonFinite
    | N => Fin (Rsum (map (loss_term value_coef entropy_coef logprobs
                              entropies Vs vs As) (seq 0 N)) / INR N)
    end.
Proof.
  intros H1 H2 H3 H4; unfold loss.
  rewrite loss_terms_by_index by assumption.
  destruct (length logprobs) as [|n]; simpl; [reflexivity|].
  rewrite length_map, length_seq; reflexivity.
Qed.

(* ================================================================= *)
(** * The standardisation of line 112 in floating point *)

Import IEEE.

Section Rounding.
Variable rnd : R -> fl.
Hypothesis Hrnd : rounding rnd.

Lemma rnd_nonneg (x : R) : 0 <= x -> nonneg (rnd x).
Proof.
  intros Hx; destruct Hrnd as (Hmono & _ & H0).
  pose proof (Hmono 0 x Hx) as H; rewrite H0 in H.
  unfold nonneg; destruct (rnd x); simpl in H; try contradiction; eauto.
Qed.

Lemma add_nonneg (a b : fl) : nonneg a -> nonneg b -> nonneg (fl_add rnd a b).
Proof.
  intros [-> | [-> | (x & -> & Hx)]] [-> | [-> | (y & -> & Hy)]]; simpl;
    try (left; reflexivity); try (right; left; reflexivity).
  apply rnd_nonneg; lra.
Qed.

Lemma mul_square_nonneg (a : fl) : nonneg (fl_mul rnd a a).
Proof.
  destruct a as [x | | |]; simpl; try (right; left; reflexivity); try (left; reflexivity).
  apply rnd_nonneg; apply Rle_0_sqr.
Qed.

Lemma div_nonneg (a b : fl) : nonneg a -> nonneg b -> nonneg (fl_div rnd a b).
Proof.
  intros [-> | [-> | (x & -> & Hx)]] [-> | [-> | (y & -> & Hy)]]; simpl;
    try (left; reflexivity); try (right; left; reflexivity).
  - destruct (Rlt_dec y 0); [lra | right; left; reflexivity].
  - right; right; exists 0; split; [reflexivity | lra].
  - destruct (Req_EM_T y 0) as [_ | Hy0].
    + unfold inf_of_sign; destruct (total_order_T x 0) as [[H | H] | H];
        [lra | left; reflexivity | right; left; reflexivity].
    + apply rnd_nonneg; unfold Rdiv; apply Rmult_le_pos; [lra|].
      left; apply Rinv_0_lt_compat; lra.
Qed.

Lemma sqrt_nonneg (a : fl) : nonneg a -> nonneg (fl_sqrt rnd a).
Proof.
  intros [-> | [-> | (x & -> & Hx)]]; simpl;
    try (left; reflexivity); try (right; left; reflexivity).
  destruct (Rlt_dec x 0); [lra|]; apply rnd_nonneg, sqrt_pos.
Qed.
End Rounding.

Lemma fold_sq_nonneg (rnd : R -> fl) (f : fl -> fl) (As : list fl) (acc : fl) :
  rounding rnd -> nonneg acc ->
  nonneg (fold_left (fun acc x => let dx := f x in
                                  fl_add rnd acc (fl_mul rnd dx dx)) As acc).
Proof.
  intros Hr; revert acc; induction As as [|x As IH]; intros acc Hacc; simpl; [exact Hacc|].
  apply IH, add_nonneg; [exact Hr | exact Hacc | apply mul_square_nonneg; exact Hr].
Qed.

Lemma std32_nonneg (rnd32 rnd64 : R -> fl) (As : list fl) :
  rounding rnd32 -> rounding rnd64 -> nonneg (std32 rnd32 rnd64 As).
Proof.
  intros H32 H64; unfold std32; destruct As as [|a As']; [left; reflexivity|].
  cbv zeta.
  set (v := fl_sqrt rnd64 _).
  assert (Hv : nonneg v).
  { unfold v; apply sqrt_nonneg; [exact H64|]; apply div_nonneg; [exact H64 | | ].
    - apply fold_sq_nonneg; [exact H64|]; right; right; exists 0; split; [reflexivity | lra].
    - apply rnd_nonneg; [exact H64 | apply pos_INR]. }
  clearbody v.
  destruct Hv as [-> | [-> | (x & -> & Hx)]]; simpl;
    [left; reflexivity | right; left; reflexivity | apply rnd_nonneg; assumption].
Qed.

(** Claim C6: in IEEE arithmetic (for every monotone rounding to float32
    and float64) the divisor [As.std() + 1e-8] of line 112 is never zero:
    it is NaN, [+inf] or a number at least the float32 value [e] of
    [1e-8], which is positive; and the transformation raises no error: it
    returns one value per advantage, for every advantage batch, including
    a zero-variance one. *)
Theorem standardize_divisor_nonzero (rnd32 rnd64 : R -> fl) (e : R) :
  rounding rnd32 -> rounding rnd64 ->
  eps32 rnd32 rnd64 = Num e -> 0 < e ->
  forall As : list fl,
    std_divisor32 rnd32 rnd64 As <> Num 0 /\
    (std_divisor32 rnd32 rnd64 As = NaN \/ std_divisor32 rnd32 rnd64 As = PInf \/
     exists d, std_divisor32 rnd32 rnd64 As = Num d /\ e <= d) /\
    length (standardize32 rnd32 rnd64 As) = length As.
Proof.
  intros H32 H64 He Hepos As.
  assert (Hfix : rnd32 e = Num e).
  { unfold eps32, to_f32 in He; destruct (rnd64 (/ 100000000)) as [z | | |];
      try discriminate; destruct H32 as (_ & Hidem & _); apply (Hidem z); exact He. }
  assert (Hd : std_divisor32 rnd32 rnd64 As = NaN \/ std_divisor32 rnd32 rnd64 As = PInf \/
               exists d, std_divisor32 rnd32 rnd64 As = Num d /\ e <= d).
  { unfold std_divisor32; rewrite He.
    destruct (std32_nonneg rnd32 rnd64 As H32 H64) as [-> | [-> | (x & -> & Hx)]]; simpl;
      [left; reflexivity | right; left; reflexivity |].
    destruct H32 as (Hmono & _ & _).
    pose proof (Hmono e (x + e) ltac:(lra)) as Hm; rewrite Hfix in Hm.
    destruct (rnd32 (x + e)) as [y | | |]; simpl in Hm; try contradiction;
      [right; right; exists y; split; [reflexivity | exact Hm] | right; left; reflexivity]. }
  split; [|split; [exact Hd | unfold standardize32; apply length_map]].
  destruct Hd as [-> | [-> | (d & -> & Hd)]]; try discriminate.
  intros E; injection E; lra.
Qed.

Lemma rounding_exact : rounding Num.
Proof.
  split; [|split]; [intros x y H; exact H | intros x y _; reflexivity | reflexivity].
Qed.

Lemma rounding_sat (M : R) : 0 <= M -> rounding (rnd_sat M).
Proof.
  intros HM; split; [|split].
  - intros x y Hxy; unfold rnd_sat.
    destruct (Rle_dec x M), (Rle_dec (- M) x), (Rle_dec y M), (Rle_dec (- M) y);
      simpl; first [exact I | lra].
  - intros x y; unfold rnd_sat.
    destruct (Rle_dec x M), (Rle_dec (- M) x); intros E; try discriminate.
    injection E as <-; destruct (Rle_dec x M), (Rle_dec (- M) x); try lra; reflexivity.
  - unfold rnd_sat; destruct (Rle_dec 0 M), (Rle_dec (- M) 0); try lra; reflexivity.
Qed.

(** The float32 batch [[3e38, 3e38]] (with float32 overflowing beyond
    [3.4e38]): its sum overflows, its mean is [+inf], and so is its
    standard deviation; every standardised advantage is NaN. *)
Example standardize32_overflow :
  standardize32 (rnd_sat 3.4e38) (rnd_sat 1.7e308) [Num 3e38; Num 3e38] = [NaN; NaN].
Proof.
  assert (Hm : mean32 (rnd_sat 3.4e38) [Num 3e38; Num 3e38] = PInf).
  { unfold mean32; simpl.
    replace (rnd_sat 3.4e38 (0 + 3e38)) with (Num 3e38)
      by (unfold rnd_sat; destruct (Rle_dec (0 + 3e38) 3.4e38), (Rle_dec (- (3.4e38)) (0 + 3e38));
          try lra; f_equal; lra).
    simpl; replace (rnd_sat 3.4e38 (3e38 + 3e38)) with PInf
      by (unfold rnd_sat; destruct (Rle_dec (3e38 + 3e38) 3.4e38); [lra | reflexivity]).
    simpl; replace (rnd_sat 3.4e38 (1 + 1)) with (Num 2)
      by (unfold rnd_sat; destruct (Rle_dec (1 + 1) 3.4e38), (Rle_dec (- (3.4e38)) (1 + 1));
          try lra; f_equal; lra).
    simpl; destruct (Rlt_dec 2 0); [lra | reflexivity]. }
  assert (Hs : std32 (rnd_sat 3.4e38) (rnd_sat 1.7e308) [Num 3e38; Num 3e38] = PInf).
  { unfold std32; cbv zeta; rewrite Hm; simpl.
    replace (rnd_sat 1.7e308 1) with (Num 1)
      by (unfold rnd_sat; destruct (Rle_dec 1 1.7e308), (Rle_dec (- (1.7e308)) 1);
          try lra; reflexivity).
    simpl; destruct (Rlt_dec 1 0); [lra | reflexivity]. }
  unfold standardize32, std_divisor32; rewrite Hm, Hs; simpl.
  destruct (eps32 (rnd_sat 3.4e38) (rnd_sat 1.7e308)); reflexivity.
Qed.

(* ================================================================= *)
(** * The timestep counter and the learning-rate schedule *)

Import Counter.












(** Claim C9: with the scheduler enabled, [learn] first steps the
    optimizer with the current learning rate, then steps the scheduler with
    the counter as it stood before the batch, and only then adds the batch
    to the counter; the new learning rate is the schedule at the old
    count. *)
Theorem scheduler_sees_old_counter (sched : Z -> R) (st st' : AgentState)
    (Ts : list N) (evs : list Event) :
  learn_step sched true st Ts = Some (st', evs) ->
  evs = [OptimizerStep (lr st); SchedulerStep (total_timestep st)] /\
  lr st' = sched (total_timestep st) /\
  total_timestep st' = wrap64 (total_timestep st + batch_timesteps Ts).
Proof.
  unfold learn_step, iadd64; destruct (batch_ok Ts); [|discriminate]; cbn [negb].
  destruct (batch_timesteps Ts <? 2 ^ 64)%Z; [|discriminate].
  intros E; injection E as <- <-; repeat split.
Qed.

(* ================================================================= *)
(** * [checkpoint] and the constructor *)

Import Ckpt.

Lemma get_wrapper_present (name : string) (env : Env) :
  (exists w, get_wrapper env name = Some w) <-> present name env.
Proof.
  induction env as [cls | w inner IH]; simpl.
  - split; [intros (w & E); discriminate | intros H; inversion H].
  - destruct (String.eqb_spec (wcls w) name) as [Hw|Hw].
    + split; [intros _; apply present_here; exact Hw | intros _; eexists; reflexivity].
    + rewrite IH; split; [intros H; apply present_deeper; exact H|].
      intros H; inversion H; subst; [contradiction | assumption].
Qed.

(** Claim C8: [checkpoint env n] saves the model under key [n], and saves
    the running mean and variance of a [VecStandardizeObservation] wrapper,
    under the same key [n], exactly when such a wrapper occurs in the
    environment stack; nothing is written under another key. *)
Theorem checkpoint_files (env : Env) (num_iter : Z) :
  (forall k, In (SaveAgent k) (checkpoint env num_iter) <-> k = num_iter) /\
  ((exists m v, In (SaveObsMoments num_iter m v) (checkpoint env num_iter))
   <-> present "VecStandardizeObservation" env) /\
  (forall k m v, In (SaveObsMoments k m v) (checkpoint env num_iter) ->
     k = num_iter /\
     exists w, get_wrapper env "VecStandardizeObservation" = Some w /\
               wcls w = "VecStandardizeObservation"%string /\
               m = wmean w /\ v = wvar w).
Proof.
  assert (Hcls : forall e w, get_wrapper e "VecStandardizeObservation" = Some w ->
                   wcls w = "VecStandardizeObservation"%string).
  { induction e as [cls | w' inner IH]; simpl; intros w E; [discriminate|].
    destruct (String.eqb_spec (wcls w') "VecStandardizeObservation") as [H|H].
    - injection E as <-; exact H.
    - apply IH; exact E. }
  unfold checkpoint; split; [|split].
  - intros k; simpl; split.
    + intros [E | H]; [injection E; auto|].
      destruct (get_wrapper env _) as [w|]; simpl in H;
        [destruct H as [E|[]]; discriminate | contradiction].
    + intros ->; left; reflexivity.
  - rewrite <- get_wrapper_present; simpl; split.
    + intros (m & v & [E | H]); [discriminate|].
      destruct (get_wrapper env _) as [w|]; [eexists; reflexivity | contradiction].
    + intros (w & ->); exists (wmean w), (wvar w); right; left; reflexivity.
  - intros k m v [E | H]; [discriminate|].
    destruct (get_wrapper env _) as [w|] eqn:Ew; [|contradiction].
    destruct H as [E|[]]; injection E as <- <- <-.
    split; [reflexivity|]; exists w; repeat split; auto.
    apply Hcls with env; exact Ew.
Qed.

Import Init.

(** Claim C10: for an action space that is neither [Discrete] nor [Box],
    the constructor completes (whatever the configuration holds) and sets
    no [action_head]; the first [choose_action] then fails with an
    [AttributeError] on [action_head]. *)
Theorem init_other_space_defers_failure (std0 : option R) (cls : string) :
  exists a,
    Agent_init std0 (OtherSpace cls) = inr a /\
    action_head a = None /\
    choose_action a = inl (AttributeError "action_head").
Proof. eexists; split; [reflexivity | split; reflexivity]. Qed.

(* ================================================================= *)
(** * Witnesses: the hypotheses of the theorems hold on concrete inputs *)

Lemma vtrace_on_policy_nstep_witness :
  (forall s, pi_logp s = mu_logp s ->
     ratio s = 1 /\ rho 1 s = 1 /\ c 1 s = 1) /\
  exists As,
    vtrace [0; 0] [0; 0] (99 / 100) [1; 1] [1 / 2; 1 / 2] 0 [false; true] 1 1
    = Some (nstep_return (99 / 100) 0 [1; 1] [false; true], As).
Proof.
  apply vtrace_on_policy_nstep; simpl; try reflexivity; right; reflexivity.
Defined.

Lemma vtrace_terminal_boundary_witness :
  nth 1 [false; true; false] false = true /\
  nth 0 (vtargets [0; 0; 0] [0; 0; 1] (99 / 100) [1; 1; 5] [1 / 2; 1 / 2; 3] 7
           [false; true; false] 1 1) 0
  = nth 0 (vtargets (zero_after 1 [0; 0; 0]) (zero_after 1 [0; 0; 1]) (99 / 100)
             (zero_after 1 [1; 1; 5]) (zero_after 1 [1 / 2; 1 / 2; 3]) 0
             [false; true; false] 1 1) 0.
Proof.
  split; [reflexivity|].
  apply (vtrace_terminal_boundary _ _ _ _ _ _ _ _ _ 1); [reflexivity | lia].
Defined.

Lemma loss_is_mean_of_terms_witness :
  loss 1 (1 / 100) [-1; -2] [1; 1] [1 / 2; 0] [1; 0] [1; -1]
  = Fin (Rsum (map (loss_term 1 (1 / 100) [-1; -2] [1; 1] [1 / 2; 0] [1; 0] [1; -1])
                   (seq 0 2)) / INR 2).
Proof. apply (loss_is_mean_of_terms 1 (1 / 100)); reflexivity. Defined.

Lemma scheduler_sees_old_counter_witness :
  learn_step (fun _ => 0) true (mkAgentState 5 1) [3%N]
  = Some (mkAgentState 8 0, [OptimizerStep 1; SchedulerStep 5]) /\
  [OptimizerStep 1; SchedulerStep 5]
  = [OptimizerStep (lr (mkAgentState 5 1)); SchedulerStep (Counter.total_timestep (mkAgentState 5 1))] /\
  lr (mkAgentState 8 0) = 0 /\
  Counter.total_timestep (mkAgentState 8 0) = wrap64 (5 + batch_timesteps [3%N]).
Proof.
  split; [reflexivity|].
  apply (scheduler_sees_old_counter (fun _ => 0) (mkAgentState 5 1)
           (mkAgentState 8 0) [3%N]); reflexivity.
Defined.

Lemma standardize_divisor_nonzero_witness :
  std_divisor32 (rnd_sat 3.4e38) (rnd_sat 1.7e308) [Num 3; Num 3] <> Num 0 /\
  (std_divisor32 (rnd_sat 3.4e38) (rnd_sat 1.7e308) [Num 3; Num 3] = NaN \/
   std_divisor32 (rnd_sat 3.4e38) (rnd_sat 1.7e308) [Num 3; Num 3] = PInf \/
   exists d, std_divisor32 (rnd_sat 3.4e38) (rnd_sat 1.7e308) [Num 3; Num 3] = Num d /\
             / 100000000 <= d) /\
  length (standardize32 (rnd_sat 3.4e38) (rnd_sat 1.7e308) [Num 3; Num 3])
  = length [Num 3; Num 3].
Proof.
  apply (standardize_divisor_nonzero (rnd_sat 3.4e38) (rnd_sat 1.7e308) (/ 100000000));
    [apply rounding_sat; lra | apply rounding_sat; lra | |
     apply Rinv_0_lt_compat; lra].
  unfold eps32, to_f32, rnd_sat.
  destruct (Rle_dec (/ 100000000) 1.7e308), (Rle_dec (- (1.7e308)) (/ 100000000));
    try lra.
  destruct (Rle_dec (/ 100000000) 3.4e38), (Rle_dec (- (3.4e38)) (/ 100000000));
    try lra; reflexivity.
Defined.

(* ================================================================= *)
(** * Further properties of [Agent.learn] *)

(** [tensor.split(Ts)] followed by concatenation gives the tensor back,
    and the pieces have the requested sizes. *)
Theorem split_sizes_roundtrip (Ts : list nat) (xs : list R)
    (xss : list (list R)) :
  split_sizes Ts xs = Some xss ->
  concat xss = xs /\ map (@length R) xss = Ts.
Proof.
  revert xs xss; induction Ts as [|T Ts IH]; intros xs xss E; simpl in E.
  - destruct xs; [|discriminate]; injection E as <-; split; reflexivity.
  - destruct (Nat.leb_spec T (length xs)) as [HT|HT]; [|discriminate].
    destruct (split_sizes Ts (skipn T xs)) as [xss'|] eqn:E'; [|discriminate].
    injection E as <-; destruct (IH _ _ E') as [H1 H2]; simpl.
    rewrite H1, H2, firstn_skipn, length_firstn; split; [reflexivity|].
    f_equal; lia.
Qed.

Lemma split_sizes_defined (Ts : list nat) (xs : list R) :
  (exists xss, split_sizes Ts xs = Some xss) <-> length xs = list_sum Ts.
Proof.
  split.
  - intros (xss & E); destruct (split_sizes_roundtrip _ _ _ E) as [H1 H2].
    rewrite <- H1, length_concat, H2; reflexivity.
  - intros H; destruct (split_sizes_total Ts xs H) as (xss & E & _); eauto.
Qed.

(** After the [.squeeze()] of lines 94 and 96, the split of line 102
    succeeds exactly when the flat tensor has as many rows as the
    trajectories have timesteps in total and that total is not 1. *)
Theorem split_after_squeeze_defined_iff (Ts : list nat) (xs : list R) :
  (exists xss, split_tensor Ts (squeeze xs) = Some xss)
  <-> length xs = list_sum Ts /\ length xs <> 1%nat.
Proof.
  destruct (Nat.eq_dec (length xs) 1) as [H1 | H1].
  - destruct xs as [|x [|y l]]; simpl in H1; try discriminate.
    simpl; split; [intros (xss & E); discriminate | intros [_ H]; contradiction].
  - rewrite squeeze_vec by exact H1; cbn [split_tensor]; rewrite split_sizes_defined.
    split; [intros H; split; assumption | intros [H _]; exact H].
Qed.

(** [.squeeze()] makes a batch with a single timestep in total a 0-d
    tensor, and the split of line 102 then fails: [learn] can never
    process such a batch.  For every other batch size the squeeze changes
    nothing. *)
Theorem learn_single_timestep_fails (gamma crho cpg : R) (D : list Traj)
    (logprobs Vs last_Vs : list R) :
  length Vs = length logprobs ->
  learn_targets_squeezed gamma crho cpg D logprobs Vs last_Vs
  = if Nat.eqb (length logprobs) 1 then None
    else split_vtrace gamma crho cpg D logprobs Vs last_Vs.
Proof.
  intros HL; unfold learn_targets_squeezed, split_vtrace.
  destruct logprobs as [|x [|y l]], Vs as [|u [|w k]]; simpl in HL;
    try discriminate; reflexivity.
Qed.

Import Report.

Lemma Rsum_map_opp (a : list R) : Rsum (map Ropp a) = - Rsum a.
Proof. induction a as [|x a IH]; unfold Rsum in *; simpl; [ring | rewrite IH; ring]. Qed.

Lemma mean_nonempty (xs : list R) :
  xs <> [] -> mean xs = Fin (Rsum xs / INR (length xs)).
Proof. destruct xs; [congruence | reflexivity]. Qed.

(** The reported [policy_entropy] is the mean entropy of the batch, and
    the reported [entropy_loss] is its negation (both NaN on an empty
    batch). *)
Theorem report_policy_entropy (value_coef entropy_coef : R)
    (logprobs entropies Vs vs As : list R) :
  out_policy_entropy (report value_coef entropy_coef logprobs entropies Vs vs As)
  = mean entropies /\
  out_entropy_loss (report value_coef entropy_coef logprobs entropies Vs vs As)
  = fneg (mean entropies).
Proof.
  unfold report; cbn [out_policy_entropy out_entropy_loss]; unfold entropy_loss.
  destruct entropies as [|x xs]; [split; reflexivity|].
  rewrite !mean_nonempty by discriminate.
  rewrite Rsum_map_opp, length_map; cbn [fneg].
  split; f_equal; unfold Rdiv; ring.
Qed.

(* ================================================================= *)
(** * Further properties of the float32 value loss and standardisation *)

(** In float32, every per-timestep value loss [(V - vtarget) ** 2] of
    line 119 is NaN, [+inf] or a non-negative number, and it is exactly 0
    where the value estimate equals a finite value target. *)
Theorem value_loss32_nonneg (rnd32 : R -> fl) (Vs vs : list fl) :
  rounding rnd32 ->
  Forall nonneg (value_loss32 rnd32 Vs vs) /\
  (forall xs, value_loss32 rnd32 (map Num xs) (map Num xs) = repeat (Num 0) (length xs)).
Proof.
  intros Hr; split.
  - revert vs; induction Vs as [|V Vs IH]; intros [|v vs]; simpl; constructor;
      [apply mul_square_nonneg; exact Hr | apply IH].
  - destruct Hr as (_ & _ & H0).
    induction xs as [|x xs IH]; simpl; [reflexivity|].
    rewrite IH, Rplus_opp_r, H0; simpl; rewrite Rmult_0_l, H0; reflexivity.
Qed.

Section Poison.
Variable rnd : R -> fl.

Lemma add_poison_l (a b : fl) : is_num a = false -> is_num (fl_add rnd a b) = false.
Proof. destruct a, b; simpl; congruence. Qed.

Lemma add_poison_r (a b : fl) : is_num b = false -> is_num (fl_add rnd a b) = false.
Proof. destruct a, b; simpl; congruence. Qed.

Lemma sub_poison_r (a b : fl) : is_num b = false -> is_num (fl_sub rnd a b) = false.
Proof. intros H; apply add_poison_r; destruct b; simpl in *; congruence. Qed.

Lemma div_poison_l (a b : fl) : is_num a = false -> is_num (fl_div rnd a b) = false.
Proof.
  destruct a, b; simpl; try congruence; intros _;
    match goal with |- context [Rlt_dec ?y 0] => destruct (Rlt_dec y 0) end; reflexivity.
Qed.

Lemma div_poison_both (a b : fl) :
  is_num a = false -> is_num b = false -> fl_div rnd a b = NaN.
Proof. destruct a, b; simpl; congruence. Qed.

Lemma mul_square_poison (a : fl) : is_num a = false -> is_num (fl_mul rnd a a) = false.
Proof. destruct a; simpl; congruence. Qed.

Lemma sqrt_poison (a : fl) : is_num a = false -> is_num (fl_sqrt rnd a) = false.
Proof. destruct a; simpl; congruence. Qed.

Lemma fold_add_poison (As : list fl) (acc : fl) :
  (is_num acc = false \/ exists a, In a As /\ is_num a = false) ->
  is_num (fold_left (fl_add rnd) As acc) = false.
Proof.
  revert acc; induction As as [|x As IH]; intros acc H; simpl.
  - destruct H as [H | (a & [] & _)]; exact H.
  - apply IH; destruct H as [H | (a & [-> | Hin] & Ha)].
    + left; apply add_poison_l; exact H.
    + left; apply add_poison_r; exact Ha.
    + right; exists a; split; assumption.
Qed.

Lemma fold_sq_poison (f : fl -> fl) (As : list fl) (acc : fl) :
  (forall x, is_num (f x) = false) -> (is_num acc = false \/ As <> []) ->
  is_num (fold_left (fun acc x => let dx := f x in
                                  fl_add rnd acc (fl_mul rnd dx dx)) As acc) = false.
Proof.
  intros Hf; revert acc; induction As as [|x As IH]; intros acc H; simpl.
  - destruct H as [H | H]; [exact H | congruence].
  - apply IH; left; apply add_poison_r, mul_square_poison, Hf.
Qed.
End Poison.

(** A single NaN or infinite advantage makes every standardised advantage
    of line 112 NaN: the mean is not finite, so neither is any deviation
    nor the standard deviation, and the quotient of two non-finite values
    is NaN. *)
Theorem standardize_nonfinite_poisons (rnd32 rnd64 : R -> fl) (As : list fl) (a : fl) :
  In a As -> is_num a = false ->
  Forall (fun y => y = NaN) (standardize32 rnd32 rnd64 As).
Proof.
  intros Hin Ha.
  assert (Hm : is_num (mean32 rnd32 As) = false).
  { unfold mean32; apply div_poison_l, fold_add_poison; right; eauto. }
  assert (Hd : is_num (std_divisor32 rnd32 rnd64 As) = false).
  { unfold std_divisor32; apply add_poison_l.
    unfold std32; destruct As as [|x As']; [reflexivity|]; cbv zeta.
    set (sum_dx2 := fold_left _ _ _).
    assert (Hs : is_num sum_dx2 = false).
    { unfold sum_dx2; apply fold_sq_poison; [|right; discriminate].
      intros y; apply sub_poison_r; exact Hm. }
    clearbody sum_dx2.
    destruct (fl_sqrt rnd64 (fl_div rnd64 sum_dx2 (rnd64 (INR (length (x :: As') - 1)))))
      eqn:E; [|reflexivity..].
    exfalso; assert (Hq := sqrt_poison rnd64 _ (div_poison_l rnd64 _
                             (rnd64 (INR (length (x :: As') - 1))) Hs)).
    rewrite E in Hq; discriminate. }
  unfold standardize32; apply Forall_forall; intros y Hy.
  apply in_map_iff in Hy as (b & <- & _).
  apply div_poison_both; [apply sub_poison_r; exact Hm | exact Hd].
Qed.

(* ================================================================= *)
(** * Further properties of the counter and the scheduler *)


(** With the scheduler on, the learning rate used by the optimizer step of
    a [learn] call is the one the previous call set from its own
    pre-batch count: it lags one batch behind the counter. *)
Theorem lr_lags_one_batch (sched : Z -> R) (st st1 st2 : AgentState)
    (Ts1 Ts2 : list N) (ev1 ev2 : list Event) :
  learn_step sched true st Ts1 = Some (st1, ev1) ->
  learn_step sched true st1 Ts2 = Some (st2, ev2) ->
  ev2 = [OptimizerStep (sched (Counter.total_timestep st));
         SchedulerStep (Counter.total_timestep st1)].
Proof.
  intros E1 E2; unfold learn_step, iadd64 in E1, E2.
  destruct (batch_ok Ts1) in E1; [|discriminate]; cbn [negb] in E1.
  destruct (batch_timesteps Ts1 <? 2 ^ 64)%Z in E1; [|discriminate].
  simpl in E1; injection E1 as <- <-.
  destruct (batch_ok Ts2) in E2; [|discriminate]; cbn [negb] in E2.
  destruct (batch_timesteps Ts2 <? 2 ^ 64)%Z in E2; [|discriminate].
  simpl in E2; injection E2 as _ <-; reflexivity.
Qed.

(* ================================================================= *)
(** * Witnesses of the further properties *)

Lemma split_sizes_roundtrip_witness :
  split_sizes [1%nat; 2%nat] [1; 2; 3] = Some [[1]; [2; 3]] /\
  concat [[1]; [2; 3]] = [1; 2; 3] /\ map (@length R) [[1]; [2; 3]] = [1%nat; 2%nat].
Proof.
  split; [reflexivity|].
  apply (split_sizes_roundtrip [1%nat; 2%nat] [1; 2; 3]); reflexivity.
Defined.

Lemma learn_single_timestep_fails_witness :
  learn_targets_squeezed 1 1 1 [mkTraj [0] [1] [true]] [0] [1 / 2] [0]
  = if Nat.eqb (length [0]) 1 then None
    else split_vtrace 1 1 1 [mkTraj [0] [1] [true]] [0] [1 / 2] [0].
Proof. apply learn_single_timestep_fails; reflexivity. Defined.

Lemma value_loss32_nonneg_witness :
  Forall nonneg (value_loss32 Num [Num 1; PInf] [Num 3; PInf]) /\
  (forall xs, value_loss32 Num (map Num xs) (map Num xs) = repeat (Num 0) (length xs)).
Proof. apply value_loss32_nonneg; exact rounding_exact. Defined.

Lemma standardize_nonfinite_poisons_witness :
  Forall (fun y => y = NaN) (standardize32 Num Num [Num 1; PInf; Num 2]).
Proof.
  apply (standardize_nonfinite_poisons Num Num [Num 1; PInf; Num 2] PInf);
    [simpl; right; left; reflexivity | reflexivity].
Defined.

Lemma lr_lags_one_batch_witness :
  learn_step (fun z => IZR z) true (mkAgentState 5 1) [3%N]
  = Some (mkAgentState 8 5, [OptimizerStep 1; SchedulerStep 5]) /\
  learn_step (fun z => IZR z) true (mkAgentState 8 5) [2%N]
  = Some (mkAgentState 10 8, [OptimizerStep 5; SchedulerStep 8]) /\
  [OptimizerStep 5; SchedulerStep 8]
  = [OptimizerStep ((fun z => IZR z) (Counter.total_timestep (mkAgentState 5 1)));
     SchedulerStep (Counter.total_timestep (mkAgentState 8 5))].
Proof.
  assert (E1 : learn_step (fun z => IZR z) true (mkAgentState 5 1) [3%N]
               = Some (mkAgentState 8 5, [OptimizerStep 1; SchedulerStep 5]))
    by reflexivity.
  assert (E2 : learn_step (fun z => IZR z) true (mkAgentState 8 5) [2%N]
               = Some (mkAgentState 10 8, [OptimizerStep 5; SchedulerStep 8]))
    by reflexivity.
  split; [exact E1|]; split; [exact E2|].
  exact (lr_lags_one_batch _ _ _ _ _ _ _ _ E1 E2).
Defined.
